(** * gps-crono: the measuring engine of [App.tsx]

    A shallow embedding of the parts of [src/App.tsx] that measure: the
    haversine distance, the exponential smoothing filter, the split table and
    the React component's state with its three commands ([resetAll], [start],
    [stop]) and the callback that [start] registers with
    [Location.watchPositionAsync].

    Numbers.  A JavaScript [number] is modelled by a real number ([R]): the
    arithmetic is exact, so rounding, NaN, infinities and signed zeros are not
    part of the model.  [Math.sin], [Math.cos], [Math.sqrt], [Math.PI],
    [Math.max] and [Math.min] are the Standard Library's [sin], [cos], [sqrt],
    [PI], [Rmax] and [Rmin]; [Math.atan2] is defined below from [atan].

    React.  [useState] cells and [useRef] cells are fields of one record,
    [App].  A setter called with a value overwrites the cell, a setter called
    with a function applies it to the cell's current value.  The callback that
    [start] hands to [watchPositionAsync] is a closure: besides the cells it
    reaches through setters and refs, it reads the constants [armed], [t0] and
    [distanceM] of the render in which [start] was created.  These captured
    constants are the record [Captured], kept with the subscription. *)

From Stdlib Require Import Reals Lra List.
Import ListNotations.
Open Scope R_scope.

(** ** Utilities (lines 10-23) *)

(** [const KMH = (mps) => (mps ?? 0) * 3.6] *)
Definition KMH (mps : option R) : R :=
  match mps with Some v => v | None => 0 end * 3.6.

(** [const clamp = (v, a, b) => Math.max(a, Math.min(b, v))] *)
Definition clamp (v a b : R) : R := Rmax a (Rmin b v).

(** [Math.atan2(y, x)]: the angle, in (-PI, PI], of the point [(x, y)]. *)
Definition Math_atan2 (y x : R) : R :=
  if Rlt_dec 0 x then atan (y / x)
  else if Rlt_dec x 0 then
    if Rle_dec 0 y then atan (y / x) + PI else atan (y / x) - PI
  else if Rlt_dec 0 y then PI / 2
  else if Rlt_dec y 0 then - (PI / 2)
  else 0.

(** [const toRad = (d) => (d * Math.PI) / 180] (local to [haversineMeters]) *)
Definition toRad (d : R) : R := (d * PI) / 180.

(** [haversineMeters(lat1, lon1, lat2, lon2)], lines 15-23. *)
Definition haversineMeters (lat1 lon1 lat2 lon2 : R) : R :=
  let R := 6371000 in
  let dLat := toRad (lat2 - lat1) in
  let dLon := toRad (lon2 - lon1) in
  let a := sin (dLat / 2) ^ 2
           + cos (toRad lat1) * cos (toRad lat2) * sin (dLon / 2) ^ 2 in
  let c := 2 * Math_atan2 (sqrt a) (sqrt (1 - a)) in
  R * c.

(** ** The smoothing filter (class [EmaFilter], lines 26-31) *)

Module EmaFilter.

(** The two private fields: [alpha] and [y], [null] at first. *)
Record state : Type := mk { alpha : R; y : option R }.

(** [constructor(alpha = 0.25) { this.alpha = clamp(alpha, 0.05, 0.9); }] *)
Definition new (a : option R) : state :=
  mk (clamp (match a with Some v => v | None => 0.25 end) 0.05 0.9) None.

(** [next(x)]: the filter after the call and the value returned. *)
Definition next (f : state) (x : R) : state * R :=
  let y' := match y f with
            | None => x
            | Some y0 => alpha f * x + (1 - alpha f) * y0
            end in
  (mk (alpha f) (Some y'), y').

(** [reset() { this.y = null; }] *)
Definition reset (f : state) : state := mk (alpha f) None.

End EmaFilter.

(** ** Parameters and types (lines 33-39) *)

Definition SPEED_THRESHOLDS : list R := [40; 60; 80; 100; 120; 140; 160; 180; 200].
Definition STOP_KMH : R := 1.0.
Definition MOVING_KMH : R := 3.0.

(** [interface Split { target: number; t: number | null; }] *)
Record Split : Type := mkSplit { target : R; t : option R }.

(** [SPEED_THRESHOLDS.map(v => ({ target: v, t: null }))], the value of the
    split table at mount, after [resetAll] and after [start]. *)
Definition freshSplits : list Split :=
  map (fun v => mkSplit v None) SPEED_THRESHOLDS.

(** ** What the location source delivers *)

(** The fields of [Location.LocationObjectCoords] that the callback reads. *)
Record Coords : Type := mkCoords {
  latitude : R;
  longitude : R;
  speed : option R;
  accuracy : option R;
  satellitesUsed : option R
}.

(** [Location.LocationObject]: [timestamp] is a number of milliseconds. *)
Record LocationObject : Type := mkLocation { coords : Coords; timestamp : R }.

(** [{ acc?: number; sat?: number }] *)
Record FixInfo : Type := mkFixInfo { acc : option R; sat : option R }.

(** ** The component's state *)

(** The constants of the enclosing render that the callback of [start] reads
    (lines 122, 133-134, 143, 147-150): they are fixed when the callback is
    created and live as long as the subscription. *)
Record Captured : Type := mkCaptured {
  cap_armed : bool;
  cap_t0 : option R;
  cap_distanceM : R
}.

(** The [useState] cells (lines 42-52) and the [useRef] cells (lines 54-56).
    [subRef] holds the live subscription, here the constants its callback
    captured; no subscription, no callback. *)
Record App : Type := mkApp {
  hasPerm : option bool;
  running : bool;
  armed : bool;
  t0 : option R;
  splits : list Split;
  maxKmh : R;
  avgKmh : R;
  currKmh : R;
  distanceM : R;
  elapsedMs : R;
  fixInfo : option FixInfo;
  lastPoint : option Coords;
  ema : EmaFilter.state;
  subRef : option Captured
}.

(** The state at mount: the initial values of lines 42-56. *)
Definition mount : App :=
  {| hasPerm := None; running := false; armed := false; t0 := None;
     splits := freshSplits; maxKmh := 0; avgKmh := 0; currKmh := 0;
     distanceM := 0; elapsedMs := 0; fixInfo := None; lastPoint := None;
     ema := EmaFilter.new (Some 0.25); subRef := None |}.

(** *** Setters *)

Definition setHasPerm (v : option bool) (s : App) : App :=
  mkApp v (running s) (armed s) (t0 s) (splits s) (maxKmh s) (avgKmh s)
        (currKmh s) (distanceM s) (elapsedMs s) (fixInfo s) (lastPoint s)
        (ema s) (subRef s).
Definition setRunning (v : bool) (s : App) : App :=
  mkApp (hasPerm s) v (armed s) (t0 s) (splits s) (maxKmh s) (avgKmh s)
        (currKmh s) (distanceM s) (elapsedMs s) (fixInfo s) (lastPoint s)
        (ema s) (subRef s).
Definition setArmed (v : bool) (s : App) : App :=
  mkApp (hasPerm s) (running s) v (t0 s) (splits s) (maxKmh s) (avgKmh s)
        (currKmh s) (distanceM s) (elapsedMs s) (fixInfo s) (lastPoint s)
        (ema s) (subRef s).
Definition setT0 (v : option R) (s : App) : App :=
  mkApp (hasPerm s) (running s) (armed s) v (splits s) (maxKmh s) (avgKmh s)
        (currKmh s) (distanceM s) (elapsedMs s) (fixInfo s) (lastPoint s)
        (ema s) (subRef s).
Definition setSplits (v : list Split) (s : App) : App :=
  mkApp (hasPerm s) (running s) (armed s) (t0 s) v (maxKmh s) (avgKmh s)
        (currKmh s) (distanceM s) (elapsedMs s) (fixInfo s) (lastPoint s)
        (ema s) (subRef s).
Definition setMaxKmh (v : R) (s : App) : App :=
  mkApp (hasPerm s) (running s) (armed s) (t0 s) (splits s) v (avgKmh s)
        (currKmh s) (distanceM s) (elapsedMs s) (fixInfo s) (lastPoint s)
        (ema s) (subRef s).
Definition setAvgKmh (v : R) (s : App) : App :=
  mkApp (hasPerm s) (running s) (armed s) (t0 s) (splits s) (maxKmh s) v
        (currKmh s) (distanceM s) (elapsedMs s) (fixInfo s) (lastPoint s)
        (ema s) (subRef s).
Definition setCurrKmh (v : R) (s : App) : App :=
  mkApp (hasPerm s) (running s) (armed s) (t0 s) (splits s) (maxKmh s)
        (avgKmh s) v (distanceM s) (elapsedMs s) (fixInfo s) (lastPoint s)
        (ema s) (subRef s).
Definition setDistanceM (v : R) (s : App) : App :=
  mkApp (hasPerm s) (running s) (armed s) (t0 s) (splits s) (maxKmh s)
        (avgKmh s) (currKmh s) v (elapsedMs s) (fixInfo s) (lastPoint s)
        (ema s) (subRef s).
Definition setElapsedMs (v : R) (s : App) : App :=
  mkApp (hasPerm s) (running s) (armed s) (t0 s) (splits s) (maxKmh s)
        (avgKmh s) (currKmh s) (distanceM s) v (fixInfo s) (lastPoint s)
        (ema s) (subRef s).
Definition setFixInfo (v : option FixInfo) (s : App) : App :=
  mkApp (hasPerm s) (running s) (armed s) (t0 s) (splits s) (maxKmh s)
        (avgKmh s) (currKmh s) (distanceM s) (elapsedMs s) v (lastPoint s)
        (ema s) (subRef s).
(** [lastPoint.current = v], [ema.current] after a method call,
    [subRef.current = v]. *)
Definition setLastPoint (v : option Coords) (s : App) : App :=
  mkApp (hasPerm s) (running s) (armed s) (t0 s) (splits s) (maxKmh s)
        (avgKmh s) (currKmh s) (distanceM s) (elapsedMs s) (fixInfo s) v
        (ema s) (subRef s).
Definition setEma (v : EmaFilter.state) (s : App) : App :=
  mkApp (hasPerm s) (running s) (armed s) (t0 s) (splits s) (maxKmh s)
        (avgKmh s) (currKmh s) (distanceM s) (elapsedMs s) (fixInfo s)
        (lastPoint s) v (subRef s).
Definition setSubRef (v : option Captured) (s : App) : App :=
  mkApp (hasPerm s) (running s) (armed s) (t0 s) (splits s) (maxKmh s)
        (avgKmh s) (currKmh s) (distanceM s) (elapsedMs s) (fixInfo s)
        (lastPoint s) (ema s) v.

(** Statements in sequence: [s ;> f ;> g] runs [f], then [g]. *)
Notation "s ;> f" := (f s) (at level 55, left associativity, only parsing).

(** ** Control (lines 79-93, 158-162) *)

(** [resetAll], lines 79-86.  [subRef.current?.remove(); subRef.current = null]
    ends the subscription. *)
Definition resetAll (s : App) : App :=
  s ;> setRunning false ;> setArmed false ;> setT0 None
    ;> setSplits freshSplits
    ;> setMaxKmh 0 ;> setAvgKmh 0 ;> setCurrKmh 0 ;> setDistanceM 0
    ;> setElapsedMs 0
    ;> setEma (EmaFilter.reset (ema s))
    ;> setLastPoint None
    ;> setSubRef None.

(** [stop], lines 158-162. *)
Definition stop (s : App) : App :=
  s ;> setSubRef None ;> setRunning false ;> setArmed false.

(** ** The callback's updaters *)

(** The function given to [setSplits], lines 132-140 (the split tracker's
    observe step): [t0] is the time origin the caller reads, [prev] the
    current table. *)
Definition observe (prev : list Split) (t0 : option R) (now speedKmh : R)
  : list Split :=
  match t0 with
  | None => prev
  | Some t0 =>
      let dt := now - t0 in
      map (fun s =>
             match t s with
             | Some _ => s
             | None => if Rge_dec speedKmh (target s)
                       then mkSplit (target s) (Some dt)
                       else s
             end) prev
  end.

(** The function given to [setAvgKmh], lines 146-152: [t0] and [distanceM]
    are whatever the caller reads, [curr] is the cell's current value. *)
Definition avgUpdater (t0 : option R) (distanceM now curr : R) : R :=
  match t0 with
  | None => curr
  | Some t0 =>
      let secs := (now - t0) / 1000 in
      if Rle_dec secs 0 then 0
      else let km := distanceM / 1000 in km / (secs / 3600)
  end.

(** The launch logic, lines 122-129: [armed] and [t0] as the caller reads
    them; the result is what [setT0] receives, if it is called. *)
Definition launch (armed : bool) (t0 : option R) (now speedKmh : R)
  : option R :=
  match armed, t0 with
  | true, None =>
      if Rle_dec speedKmh STOP_KMH then None
      else if Rge_dec speedKmh MOVING_KMH then Some now
      else None
  | _, _ => None
  end.

(** ** The callback of [watchPositionAsync] (lines 104-153)

    [env] holds the [armed], [t0] and [distanceM] of the closure; everything
    else goes through setters and refs and so reaches the current cells. *)
Definition callback (env : Captured) (s : App) (loc : LocationObject) : App :=
  let coords := coords loc in
  let speedKmhRaw := KMH (speed coords) in
  let (filter, speedKmh) := EmaFilter.next (ema s) speedKmhRaw in
  let s := setEma filter s in
  let now := timestamp loc in
  let s := s ;> setFixInfo (Some (mkFixInfo (accuracy coords) (satellitesUsed coords)))
             ;> setCurrKmh speedKmh in
  let s := setMaxKmh (Rmax (maxKmh s) speedKmh) s in
  let s := match lastPoint s with
           | Some last =>
               let d := haversineMeters (latitude last) (longitude last)
                                        (latitude coords) (longitude coords) in
               setDistanceM (distanceM s + d) s
           | None => s
           end in
  let s := setLastPoint (Some coords) s in
  let s := match launch (cap_armed env) (cap_t0 env) now speedKmh with
           | Some origin => setT0 (Some origin) s
           | None => s
           end in
  let s := setSplits (observe (splits s) (cap_t0 env) now speedKmh) s in
  let s := match cap_t0 env with
           | Some t0 => setElapsedMs (now - t0) s
           | None => s
           end in
  setAvgKmh (avgUpdater (cap_t0 env) (cap_distanceM env) now (avgKmh s)) s.

(** [start], lines 88-156.  [useCallback] lists [hasPerm], [armed], [t0] and
    [distanceM] as dependencies, so the [start] that runs was created in the
    render of the state it runs in, and its callback captures that render's
    [armed], [t0] and [distanceM]: the values before the setters of lines
    90-93 take effect.  The subscription is taken as granted at once. *)
Definition start (s : App) : App :=
  match hasPerm s with
  | Some true =>
      let env := mkCaptured (armed s) (t0 s) (distanceM s) in
      s ;> setArmed true ;> setRunning true
        ;> setSplits freshSplits
        ;> setMaxKmh 0 ;> setAvgKmh 0 ;> setCurrKmh 0 ;> setDistanceM 0
        ;> setElapsedMs 0
        ;> setEma (EmaFilter.reset (ema s)) ;> setLastPoint None ;> setT0 None
        ;> setSubRef (Some env)
  | _ => s
  end.

(** A fix from the location source: the live subscription's callback runs. *)
Definition ingest (s : App) (loc : LocationObject) : App :=
  match subRef s with
  | Some env => callback env s loc
  | None => s
  end.

(** ** The screen (lines 170-194) and what happens to the component *)

(** What the screen shows of the state: the snapshot of the measurements. *)
Record Snapshot : Type := mkSnapshot {
  snap_currKmh : R;
  snap_maxKmh : R;
  snap_avgKmh : R;
  snap_distanceM : R;
  snap_elapsedMs : R;
  snap_splits : list Split;
  snap_fixInfo : option FixInfo
}.

Definition snapshot (s : App) : Snapshot :=
  mkSnapshot (currKmh s) (maxKmh s) (avgKmh s) (distanceM s) (elapsedMs s)
             (splits s) (fixInfo s).

(** The two buttons are rendered only when [hasPerm] is [true]
    (lines 170-177). *)
Definition buttonsShown (s : App) : bool :=
  match hasPerm s with Some true => true | _ => false end.

Inductive Event : Type :=
| PermissionResult (granted : bool)   (* the mount effect, lines 60-65 *)
| PressMain                           (* [onPress={running ? stop : start}] *)
| PressReset                          (* [onPress={resetAll}] *)
| Fix (loc : LocationObject).         (* the location source delivers *)

Definition handle (s : App) (e : Event) : App :=
  match e with
  | PermissionResult granted =>
      match hasPerm s with
      | None => setHasPerm (Some granted) s
      | Some _ => s
      end
  | PressMain =>
      if buttonsShown s then (if running s then stop s else start s) else s
  | PressReset => if buttonsShown s then resetAll s else s
  | Fix loc => ingest s loc
  end.

(** The component after a sequence of events, from [mount]. *)
Definition after (es : list Event) : App := fold_left handle es mount.

(** ** Names used by the statements below *)

(** The haversine term [a] of [haversineMeters]. *)
Definition haversine_a (lat1 lon1 lat2 lon2 : R) : R :=
  sin (toRad (lat2 - lat1) / 2) ^ 2
  + cos (toRad lat1) * cos (toRad lat2) * sin (toRad (lon2 - lon1) / 2) ^ 2.

(** [speedKmh] of the callback: the fix's speed in km/h through the filter. *)
Definition smoothed (s : App) (loc : LocationObject) : R :=
  snd (EmaFilter.next (ema s) (KMH (speed (coords loc)))).

(** The leg that the callback adds for [loc] when [last] is stored. *)
Definition leg (last : Coords) (loc : LocationObject) : R :=
  haversineMeters (latitude last) (longitude last)
                  (latitude (coords loc)) (longitude (coords loc)).

(** One call of the split updater: the origin read, [now] and the speed. *)
Record Observation : Type := mkObservation {
  obs_t0 : option R;
  obs_now : R;
  obs_speedKmh : R
}.

(** The split table after a series of updater calls. *)
Definition observeAll (prev : list Split) (calls : list Observation)
  : list Split :=
  fold_left (fun table c => observe table (obs_t0 c) (obs_now c) (obs_speedKmh c))
            calls prev.

(** A session: fixes delivered one after the other. *)
Definition ingestAll (s : App) (locs : list LocationObject) : App :=
  fold_left ingest locs s.

(** What holds of the component whatever happens to it: the two flags move
    together, no time origin is ever set, and a live callback has captured
    [armed = false] and [t0 = null]. *)
Definition never_launched (s : App) : Prop :=
  armed s = running s
  /\ t0 s = None
  /\ splits s = freshSplits
  /\ elapsedMs s = 0
  /\ avgKmh s = 0
  /\ match subRef s with
     | Some env => cap_armed env = false /\ cap_t0 env = None
     | None => True
     end.

(** The cells that the callback fills from the fix's speed, position and
    quality fields. *)
Record Motion : Type := mkMotion {
  mo_ema : EmaFilter.state;
  mo_currKmh : R;
  mo_maxKmh : R;
  mo_distanceM : R;
  mo_lastPoint : option Coords;
  mo_fixInfo : option FixInfo
}.

Definition motion (s : App) : Motion :=
  mkMotion (ema s) (currKmh s) (maxKmh s) (distanceM s) (lastPoint s)
           (fixInfo s).

(** The measurements of a session are cleared: no time origin, every split
    unset, the speeds, the distance and the elapsed time at 0, no last point,
    nothing stored in the filter. *)
Definition cleared (s : App) : Prop :=
  t0 s = None
  /\ splits s = freshSplits
  /\ Forall (fun sp => t sp = None) (splits s)
  /\ maxKmh s = 0
  /\ avgKmh s = 0
  /\ currKmh s = 0
  /\ distanceM s = 0
  /\ elapsedMs s = 0
  /\ lastPoint s = None
  /\ EmaFilter.y (ema s) = None.

(** Fixes for the examples: a position, a speed in m/s, a time in ms. *)
Definition fixAt (lat lon : R) (mps : option R) (ms : R) : LocationObject :=
  mkLocation (mkCoords lat lon mps None None) ms.

(** Permission granted, then [Start] pressed. *)
Definition startedSession : list Event := [PermissionResult true; PressMain].

(** A session that measured and was stopped: a fix at 2 m/s, a second one
    further east at 3 m/s, then the main button again. *)
Definition stoppedSession : list Event :=
  startedSession
  ++ [Fix (fixAt 0 0 (Some 2) 1000); Fix (fixAt 0 0.0001 (Some 3) 2000);
      PressMain].

(** ** Further names: series of inputs and shapes of the state *)

(** The filter after [next] on each input of [xs] in turn. *)
Definition nextAll (f : EmaFilter.state) (xs : list R) : EmaFilter.state :=
  fold_left (fun g x => fst (EmaFilter.next g x)) xs f.

(** A split table in which the set entries come first and their times do not
    decrease, none below [lo]; the rest is unset. *)
Inductive staircase : R -> list Split -> Prop :=
| staircase_unset (lo : R) (tbl : list Split) :
    Forall (fun s => t s = None) tbl -> staircase lo tbl
| staircase_set (lo : R) (tg e : R) (rest : list Split) :
    lo <= e -> staircase e rest -> staircase lo (mkSplit tg (Some e) :: rest).

(** Every time recorded in the table is at most [hi]. *)
Definition times_at_most (hi : R) (tbl : list Split) : Prop :=
  Forall (fun s => match t s with Some e => e <= hi | None => True end) tbl.

(** The targets of the table go up strictly. *)
Fixpoint ascending (tbl : list Split) : Prop :=
  match tbl with
  | [] => True
  | s :: rest => Forall (fun s' => target s < target s') rest /\ ascending rest
  end.

(** The calls all read the origin [origin], and their [now] never goes back,
    starting at or after [from]. *)
Fixpoint forward_calls (origin from : R) (calls : list Observation) : Prop :=
  match calls with
  | [] => True
  | c :: rest =>
      obs_t0 c = Some origin /\ from <= obs_now c
      /\ forward_calls origin (obs_now c) rest
  end.


(** The length of the path through the points, leg by leg. *)
Fixpoint pathLength (points : list Coords) : R :=
  match points with
  | a :: (b :: _) as rest =>
      haversineMeters (latitude a) (longitude a) (latitude b) (longitude b)
      + pathLength rest
  | _ => 0
  end.

(** The fixes of a list all report the speed [mps]. *)
Definition steady (mps : option R) (locs : list LocationObject) : Prop :=
  Forall (fun loc => speed (coords loc) = mps) locs.

(** * Properties *)

(** ** Utilities *)

Lemma clamp_cases (v a b : R) :
  a <= b ->
  (v < a /\ clamp v a b = a) \/ (a <= v <= b /\ clamp v a b = v)
  \/ (b < v /\ clamp v a b = b).
Proof.
  intros Hab. unfold clamp, Rmax, Rmin.
  destruct (Rle_dec b v) as [Hbv | Hbv];
    [ destruct (Rle_dec a b) | destruct (Rle_dec a v) ]; lra.
Qed.


(** Sanity of [Math_atan2] on the axes and the diagonal. *)
Lemma Math_atan2_values :
  Math_atan2 0 1 = 0 /\ Math_atan2 1 1 = PI / 4 /\ Math_atan2 1 0 = PI / 2
  /\ Math_atan2 0 (-1) = PI /\ Math_atan2 (-1) 0 = - (PI / 2)
  /\ Math_atan2 0 0 = 0.
Proof.
  unfold Math_atan2. repeat split.
  - destruct (Rlt_dec 0 1); [ | lra ].
    replace (0 / 1) with 0 by field. apply atan_0.
  - destruct (Rlt_dec 0 1); [ | lra ].
    replace (1 / 1) with 1 by field. apply atan_1.
  - destruct (Rlt_dec 0 0); [ lra | ]. destruct (Rlt_dec 0 1); lra.
  - destruct (Rlt_dec 0 (-1)); [ lra | ].
    destruct (Rlt_dec (-1) 0); [ | lra ].
    destruct (Rle_dec 0 0); [ | lra ].
    replace (0 / -1) with 0 by field. rewrite atan_0. lra.
  - destruct (Rlt_dec 0 0); [ lra | ].
    destruct (Rlt_dec 0 (-1)); [ lra | ].
    destruct (Rlt_dec (-1) 0); lra.
  - destruct (Rlt_dec 0 0); lra.
Qed.


Lemma haversineMeters_unfold (lat1 lon1 lat2 lon2 : R) :
  haversineMeters lat1 lon1 lat2 lon2
  = 6371000 * (2 * Math_atan2 (sqrt (haversine_a lat1 lon1 lat2 lon2))
                              (sqrt (1 - haversine_a lat1 lon1 lat2 lon2))).
Proof. reflexivity. Qed.

Lemma sin_sqr_opp (x : R) : sin (- x) ^ 2 = sin x ^ 2.
Proof. rewrite sin_neg. ring. Qed.

Lemma toRad_half_swap (u v : R) : toRad (u - v) / 2 = - (toRad (v - u) / 2).
Proof. unfold toRad. field. Qed.

Lemma haversine_a_sym (lat1 lon1 lat2 lon2 : R) :
  haversine_a lat1 lon1 lat2 lon2 = haversine_a lat2 lon2 lat1 lon1.
Proof.
  unfold haversine_a.
  rewrite (toRad_half_swap lat2 lat1), (toRad_half_swap lon2 lon1).
  rewrite !sin_sqr_opp. ring.
Qed.





(** ** The smoothing filter *)

Lemma EmaFilter_new_alpha (a : R) :
  EmaFilter.alpha (EmaFilter.new (Some a)) = clamp a 0.05 0.9.
Proof. reflexivity. Qed.

(** The filter that the component uses, [new EmaFilter(0.25)], keeps 0.25. *)
Lemma EmaFilter_new_quarter :
  EmaFilter.new (Some 0.25) = EmaFilter.mk 0.25 None.
Proof.
  unfold EmaFilter.new. f_equal.
  destruct (clamp_cases 0.25 0.05 0.9) as [H | [H | H]]; lra.
Qed.

(** C7.  [next(x)] returns and stores [x] when nothing is stored, and
    [alpha*x + (1-alpha)*y] when [y] is stored; neither [next] nor [reset]
    changes [alpha], which is the constructor's argument clamped into
    [0.05, 0.9]: the argument itself inside the interval, the nearer bound
    outside, so 0.0 gives 0.05 and 5.0 gives 0.9. *)
Theorem EmaFilter_next_and_clamp :
  forall al a x y0 : R,
    EmaFilter.next (EmaFilter.mk al None) x
    = (EmaFilter.mk al (Some x), x)
    /\ EmaFilter.next (EmaFilter.mk al (Some y0)) x
       = (EmaFilter.mk al (Some (al * x + (1 - al) * y0)),
          al * x + (1 - al) * y0)
    /\ EmaFilter.reset (EmaFilter.mk al (Some y0)) = EmaFilter.mk al None
    /\ EmaFilter.y (EmaFilter.new (Some a)) = None
    /\ 0.05 <= EmaFilter.alpha (EmaFilter.new (Some a)) <= 0.9
    /\ (0.05 <= a <= 0.9 -> EmaFilter.alpha (EmaFilter.new (Some a)) = a)
    /\ (a <= 0.05 -> EmaFilter.alpha (EmaFilter.new (Some a)) = 0.05)
    /\ (0.9 <= a -> EmaFilter.alpha (EmaFilter.new (Some a)) = 0.9)
    /\ EmaFilter.alpha (EmaFilter.new (Some 0.0)) = 0.05
    /\ EmaFilter.alpha (EmaFilter.new (Some 5.0)) = 0.9.
Proof.
  intros al a x y0. rewrite !EmaFilter_new_alpha.
  repeat match goal with |- _ /\ _ => split end; try reflexivity.
  - destruct (clamp_cases a 0.05 0.9) as [H | [H | H]]; lra.
  - destruct (clamp_cases a 0.05 0.9) as [H | [H | H]]; lra.
  - intros Ha. destruct (clamp_cases a 0.05 0.9) as [H | [H | H]]; lra.
  - intros Ha. destruct (clamp_cases a 0.05 0.9) as [H | [H | H]]; lra.
  - intros Ha. destruct (clamp_cases a 0.05 0.9) as [H | [H | H]]; lra.
  - destruct (clamp_cases 0.0 0.05 0.9) as [H | [H | H]]; lra.
  - destruct (clamp_cases 5.0 0.05 0.9) as [H | [H | H]]; lra.
Qed.

(** ** The callback, cell by cell *)

Ltac callback_cell env s :=
  destruct s; unfold callback, smoothed, leg; cbn;
  repeat match goal with
         | |- context [match ?x with _ => _ end] => destruct x; cbn
         end;
  reflexivity.

Lemma callback_ema env s loc :
  ema (callback env s loc)
  = EmaFilter.mk (EmaFilter.alpha (ema s)) (Some (smoothed s loc)).
Proof. callback_cell env s. Qed.

Lemma callback_currKmh env s loc :
  currKmh (callback env s loc) = smoothed s loc.
Proof. callback_cell env s. Qed.

Lemma callback_maxKmh env s loc :
  maxKmh (callback env s loc) = Rmax (maxKmh s) (smoothed s loc).
Proof. callback_cell env s. Qed.

Lemma callback_distanceM env s loc :
  distanceM (callback env s loc)
  = match lastPoint s with
    | Some last => distanceM s + leg last loc
    | None => distanceM s
    end.
Proof. callback_cell env s. Qed.

Lemma callback_lastPoint env s loc :
  lastPoint (callback env s loc) = Some (coords loc).
Proof. callback_cell env s. Qed.

Lemma callback_fixInfo env s loc :
  fixInfo (callback env s loc)
  = Some (mkFixInfo (accuracy (coords loc)) (satellitesUsed (coords loc))).
Proof. callback_cell env s. Qed.

Lemma callback_t0 env s loc :
  t0 (callback env s loc)
  = match launch (cap_armed env) (cap_t0 env) (timestamp loc) (smoothed s loc)
    with
    | Some origin => Some origin
    | None => t0 s
    end.
Proof. callback_cell env s. Qed.

Lemma callback_splits env s loc :
  splits (callback env s loc)
  = observe (splits s) (cap_t0 env) (timestamp loc) (smoothed s loc).
Proof. callback_cell env s. Qed.

Lemma callback_elapsedMs env s loc :
  elapsedMs (callback env s loc)
  = match cap_t0 env with
    | Some origin => timestamp loc - origin
    | None => elapsedMs s
    end.
Proof. callback_cell env s. Qed.

Lemma callback_avgKmh env s loc :
  avgKmh (callback env s loc)
  = avgUpdater (cap_t0 env) (cap_distanceM env) (timestamp loc) (avgKmh s).
Proof. callback_cell env s. Qed.

Lemma callback_frame env s loc :
  hasPerm (callback env s loc) = hasPerm s
  /\ running (callback env s loc) = running s
  /\ armed (callback env s loc) = armed s
  /\ subRef (callback env s loc) = subRef s.
Proof. repeat split; callback_cell env s. Qed.

(** ** The launch logic and the average, as functions of what they read *)

(** With [armed] read as [true] and [t0] read as [null], [setT0(now)] is
    called exactly when the smoothed speed is at least [MOVING_KMH]. *)
Lemma launch_armed_iff (now v : R) :
  launch true None now v = Some now <-> v >= MOVING_KMH.
Proof.
  unfold launch, STOP_KMH, MOVING_KMH.
  destruct (Rle_dec v 1.0); destruct (Rge_dec v 3.0);
    split; intros H; try reflexivity; try discriminate; lra.
Qed.

Lemma launch_not_armed (armed : bool) (origin : option R) (now v : R) :
  armed = false \/ origin <> None -> launch armed origin now v = None.
Proof.
  intros [-> | H]; [ reflexivity | ].
  destruct armed, origin; try reflexivity. now destruct H.
Qed.

(** The speeds 0, 0.5, 2.0, 0.5, 4.0 in a row, read with [armed = true] and
    no origin: only 4.0 calls [setT0]. *)
Example launch_hysteresis (now : R) :
  map (launch true None now) [0; 0.5; 2.0; 0.5; 4.0]
  = [None; None; None; None; Some now].
Proof.
  unfold launch, STOP_KMH, MOVING_KMH. cbn [map].
  repeat match goal with
         | |- context [Rle_dec ?a ?b] => destruct (Rle_dec a b); try lra
         | |- context [Rge_dec ?a ?b] => destruct (Rge_dec a b); try lra
         end.
  reflexivity.
Qed.

(** A callback that had captured [armed = true] and no origin would set the
    origin to the fix's timestamp exactly at [MOVING_KMH] and above. *)
Lemma callback_launch_if_captured_armed env s loc :
  cap_armed env = true -> cap_t0 env = None -> t0 s = None ->
  (t0 (callback env s loc) = Some (timestamp loc)
   <-> smoothed s loc >= MOVING_KMH).
Proof.
  intros Harmed Hcap Horigin. rewrite callback_t0, Harmed, Hcap, Horigin.
  rewrite <- (launch_armed_iff (timestamp loc) (smoothed s loc)).
  destruct (launch true None (timestamp loc) (smoothed s loc)) as [origin |];
    tauto.
Qed.

(** On the origin and the distance it reads, the updater computes distance
    over time in km/h, and 0 when no time has passed. *)
Lemma avgUpdater_formula (origin d now curr : R) :
  avgUpdater (Some origin) d now curr
  = if Rle_dec now origin then 0
    else (d / 1000) / ((now - origin) / 3600000).
Proof.
  unfold avgUpdater.
  destruct (Rle_dec ((now - origin) / 1000) 0);
    destruct (Rle_dec now origin); try lra.
  field. lra.
Qed.

(** ** What every reachable state satisfies *)

Lemma never_launched_mount : never_launched mount.
Proof. repeat split. Qed.

Lemma never_launched_callback env s loc :
  never_launched s -> subRef s = Some env ->
  never_launched (callback env s loc).
Proof.
  intros (Hflags & Horigin & Hsplits & Helapsed & Havg & Hsub) Henv.
  rewrite Henv in Hsub. destruct Hsub as [Harmed Hcap].
  destruct (callback_frame env s loc) as (_ & Hrun & Harm & Hsame).
  unfold never_launched.
  rewrite Harm, Hrun, Hsame, Henv, callback_t0, callback_splits,
    callback_elapsedMs, callback_avgKmh, Hcap, Harmed.
  cbn. repeat split; assumption.
Qed.

Lemma never_launched_handle s e :
  never_launched s -> never_launched (handle s e).
Proof.
  intros Hs. pose proof Hs as (Hflags & Horigin & Hsplits & Helapsed & Havg & Hsub).
  destruct e as [granted | | | loc]; cbn [handle].
  - destruct (hasPerm s); [ assumption | ]. exact Hs.
  - destruct (buttonsShown s) eqn:Hshown; [ | assumption ].
    destruct (running s) eqn:Hrun.
    + unfold never_launched. cbn. repeat split; assumption.
    + unfold start. destruct (hasPerm s) as [[|]|]; try assumption.
      unfold never_launched. cbn. rewrite Hflags, Horigin.
      repeat split; reflexivity.
  - destruct (buttonsShown s); [ | assumption ]. repeat split.
  - unfold ingest. destruct (subRef s) as [env |] eqn:Henv; [ | assumption ].
    now apply never_launched_callback.
Qed.

Lemma never_launched_fold (es : list Event) :
  forall s, never_launched s -> never_launched (fold_left handle es s).
Proof.
  induction es as [| e es IH]; intros s Hs; [ exact Hs | ].
  cbn [fold_left]. apply IH. now apply never_launched_handle.
Qed.

Lemma never_launched_after (es : list Event) : never_launched (after es).
Proof. apply never_launched_fold, never_launched_mount. Qed.

(** ** Running the component on concrete events *)

Ltac run_events :=
  unfold after, ingestAll, startedSession, mount;
  rewrite EmaFilter_new_quarter; cbn.

Lemma ingest_motion (s : App) (loc : LocationObject) :
  motion (ingest s loc)
  = match subRef s with
    | Some _ =>
        mkMotion (EmaFilter.mk (EmaFilter.alpha (ema s)) (Some (smoothed s loc)))
                 (smoothed s loc)
                 (Rmax (maxKmh s) (smoothed s loc))
                 (match lastPoint s with
                  | Some last => distanceM s + leg last loc
                  | None => distanceM s
                  end)
                 (Some (coords loc))
                 (Some (mkFixInfo (accuracy (coords loc))
                                  (satellitesUsed (coords loc))))
    | None => motion s
    end.
Proof.
  unfold ingest, motion. destruct (subRef s) as [env |]; [ | reflexivity ].
  now rewrite callback_ema, callback_currKmh, callback_maxKmh,
    callback_distanceM, callback_lastPoint, callback_fixInfo.
Qed.

(** C1, as the code has it.  The callback compares no timestamps: a fix whose
    timestamp is at or before the previous one's is processed like any other.
    While a subscription is live every fix goes through the filter and
    becomes [currKmh], is folded into [maxKmh], adds its leg to [distanceM]
    when a last point is stored, and replaces [lastPoint] and [fixInfo];
    none of these cells depends on the fix's timestamp. *)
Theorem ingest_processes_every_fix :
  forall (s : App) (c : Coords) (ms ms' : R),
    motion (ingest s (mkLocation c ms)) = motion (ingest s (mkLocation c ms'))
    /\ motion (ingest s (mkLocation c ms))
       = match subRef s with
         | Some _ =>
             let v := snd (EmaFilter.next (ema s) (KMH (speed c))) in
             mkMotion (fst (EmaFilter.next (ema s) (KMH (speed c))))
                      v
                      (Rmax (maxKmh s) v)
                      (match lastPoint s with
                       | Some last =>
                           distanceM s
                           + haversineMeters (latitude last) (longitude last)
                                             (latitude c) (longitude c)
                       | None => distanceM s
                       end)
                      (Some c)
                      (Some (mkFixInfo (accuracy c) (satellitesUsed c)))
         | None => motion s
         end.
Proof.
  intros s c ms ms'. rewrite !ingest_motion.
  split; destruct (subRef s); reflexivity.
Qed.

(** C1, counterexample.  Permission granted, [Start] pressed, a fix at
    1000 ms with 2 m/s, then a fix stamped 500 ms without speed: the second
    fix is not ignored, the speed shown drops from 7.2 to 5.4 km/h. *)
Lemma late_fix_changes_snapshot :
  timestamp (fixAt 0 0 None 500) <= timestamp (fixAt 0 0 (Some 2) 1000)
  /\ snapshot (ingest (after (startedSession ++ [Fix (fixAt 0 0 (Some 2) 1000)]))
                      (fixAt 0 0 None 500))
     <> snapshot (after (startedSession ++ [Fix (fixAt 0 0 (Some 2) 1000)])).
Proof.
  split; [ cbn; lra | ].
  intros Heq. apply (f_equal snap_currKmh) in Heq. revert Heq.
  run_events. unfold KMH. lra.
Qed.

(** C2, on the component.  No sequence of events ever sets the time origin.
    In particular after permission and [Start] the component is armed with no
    origin, a first fix with 2 m/s gives a smoothed speed of 7.2 km/h, above
    [MOVING_KMH], and the origin is still unset after it. *)
Theorem launch_never_taken :
  (forall es : list Event, t0 (after es) = None)
  /\ armed (after startedSession) = true
  /\ t0 (after startedSession) = None
  /\ smoothed (after startedSession) (fixAt 0 0 (Some 2) 1000) = 7.2
  /\ 7.2 >= MOVING_KMH
  /\ t0 (after (startedSession ++ [Fix (fixAt 0 0 (Some 2) 1000)])) = None.
Proof.
  split; [ intros es; apply (never_launched_after es) | ].
  repeat split; try (unfold MOVING_KMH; lra);
    try apply (never_launched_after _).
  run_events. unfold smoothed. cbn. unfold KMH. lra.
Qed.

(** C4, on the component.  The average is never computed: after any sequence
    of events it is 0, and so is the elapsed time.  The updater reads the
    captured origin and the captured distance, so the [t0] and [distanceM]
    cells of the moment have no influence on it.  In particular in a started
    session with three fixes one second apart, the last two at 10 m/s, the
    distance holds two legs while the average is 0. *)
Theorem average_never_computed :
  (forall es : list Event, avgKmh (after es) = 0 /\ elapsedMs (after es) = 0)
  /\ (forall env s loc origin d,
         avgKmh (callback env (setT0 origin (setDistanceM d s)) loc)
         = avgKmh (callback env s loc))
  /\ running (after (startedSession
                       ++ [Fix (fixAt 0 0 (Some 0) 0);
                           Fix (fixAt 0 0.0001 (Some 10) 1000);
                           Fix (fixAt 0 0.0002 (Some 10) 2000)])) = true
  /\ distanceM (after (startedSession
                         ++ [Fix (fixAt 0 0 (Some 0) 0);
                             Fix (fixAt 0 0.0001 (Some 10) 1000);
                             Fix (fixAt 0 0.0002 (Some 10) 2000)]))
     = 0 + haversineMeters 0 0 0 0.0001 + haversineMeters 0 0.0001 0 0.0002
  /\ avgKmh (after (startedSession
                      ++ [Fix (fixAt 0 0 (Some 0) 0);
                          Fix (fixAt 0 0.0001 (Some 10) 1000);
                          Fix (fixAt 0 0.0002 (Some 10) 2000)])) = 0.
Proof.
  split.
  { intros es. destruct (never_launched_after es) as (_ & _ & _ & He & Ha & _).
    now split. }
  split; [ intros env s loc origin d; now rewrite !callback_avgKmh | ].
  split; [ reflexivity | ].
  split; [ | apply (never_launched_after _) ].
  run_events. reflexivity.
Qed.

(** ** The split table *)

Lemma Forall2_compose {A : Type} (P : A -> A -> Prop) :
  (forall x y z, P x y -> P y z -> P x z) ->
  forall l1 l2 l3, Forall2 P l1 l2 -> Forall2 P l2 l3 -> Forall2 P l1 l3.
Proof.
  intros Htrans l1 l2 l3 H12. revert l3.
  induction H12 as [| x y l1 l2 Hxy _ IH]; intros l3 H23.
  - inversion H23. constructor.
  - inversion H23 as [| y' z l2' l3' Hyz Hrest]; subst.
    constructor; [ eapply Htrans; eassumption | now apply IH ].
Qed.

Lemma Forall2_same {A : Type} (P : A -> A -> Prop) :
  (forall x, P x x) -> forall l, Forall2 P l l.
Proof. intros Hrefl l. induction l; constructor; auto. Qed.

(** One call with an origin, entry by entry. *)
Lemma observe_entries (prev : list Split) (origin now v : R) :
  Forall2 (fun s s' =>
             (t s = None -> target s <= v ->
              s' = mkSplit (target s) (Some (now - origin)))
             /\ (t s = None -> ~ target s <= v -> s' = s)
             /\ (t s <> None -> s' = s))
          prev (observe prev (Some origin) now v).
Proof.
  unfold observe. induction prev as [| s prev IH]; cbn [map]; constructor;
    [ | exact IH ].
  destruct (t s) as [e |] eqn:Hset.
  - repeat split; intros; congruence.
  - destruct (Rge_dec v (target s)) as [Hge | Hlt].
    + repeat split; intros; try reflexivity; try congruence. lra.
    + repeat split; intros; try reflexivity. lra.
Qed.

(** Whatever the origin read, a call keeps the thresholds and the entries
    already set. *)
Lemma observe_keeps (prev : list Split) (origin : option R) (now v : R) :
  Forall2 (fun s s' => target s' = target s /\ (t s <> None -> s' = s))
          prev (observe prev origin now v).
Proof.
  destruct origin as [origin |].
  - eapply Forall2_impl; [ | apply observe_entries ].
    intros s s' (Hreach & Hbelow & Hset). cbn beta.
    destruct (t s) as [e |] eqn:Ht.
    + rewrite Hset by congruence. split; [ reflexivity | intros _; reflexivity ].
    + split; [ | congruence ].
      destruct (Rle_dec (target s) v) as [Hle | Hnle].
      * now rewrite (Hreach eq_refl Hle).
      * now rewrite (Hbelow eq_refl Hnle).
  - apply Forall2_same. intros s. split; [ reflexivity | intros _; reflexivity ].
Qed.

Lemma observeAll_keeps (calls : list Observation) :
  forall prev,
    Forall2 (fun s s' => target s' = target s /\ (t s <> None -> s' = s))
            prev (observeAll prev calls).
Proof.
  induction calls as [| c calls IH]; intros prev.
  - apply Forall2_same. intros s. split; [ reflexivity | intros _; reflexivity ].
  - unfold observeAll. cbn [fold_left].
    eapply Forall2_compose;
      [ | apply (observe_keeps prev (obs_t0 c) (obs_now c) (obs_speedKmh c))
        | apply IH ].
    intros x y z [Hxy Hx] [Hyz Hy]. split; [ congruence | ].
    intros Hset. rewrite <- (Hx Hset). apply Hy. now rewrite (Hx Hset).
Qed.

(** C3.  The split updater, called with an origin [origin], sets
    [t = now - origin] in every entry that is unset and whose target is at
    most the smoothed speed, and returns every other entry as it was, the set
    ones above all; called without an origin it returns the table as it was;
    and through any series of later calls, whatever their speeds, an entry
    that is set stays as it is. *)
Theorem observe_write_once :
  forall (prev : list Split) (origin now v : R) (calls : list Observation),
    observe prev None now v = prev
    /\ Forall2 (fun s s' =>
                  (t s = None -> target s <= v ->
                   s' = mkSplit (target s) (Some (now - origin)))
                  /\ (t s = None -> ~ target s <= v -> s' = s)
                  /\ (t s <> None -> s' = s))
               prev (observe prev (Some origin) now v)
    /\ Forall2 (fun s s' => target s' = target s /\ (t s <> None -> s' = s))
               prev (observeAll prev calls).
Proof.
  intros prev origin now v calls.
  split; [ reflexivity | ].
  split; [ apply observe_entries | apply observeAll_keeps ].
Qed.

(** Speed falls below a threshold already passed and rises again: the first
    time stays.  Thresholds 40 and 60, origin 0; 45 km/h at 1000 ms, 30 km/h
    at 2000 ms, 70 km/h at 3000 ms. *)
Example observeAll_dip_and_rise :
  observeAll [mkSplit 40 None; mkSplit 60 None]
             [mkObservation (Some 0) 1000 45;
              mkObservation (Some 0) 2000 30;
              mkObservation (Some 0) 3000 70]
  = [mkSplit 40 (Some (1000 - 0)); mkSplit 60 (Some (3000 - 0))].
Proof.
  unfold observeAll, observe.
  repeat (cbn;
          match goal with
          | |- context [Rge_dec ?a ?b] => destruct (Rge_dec a b); try lra
          end).
  reflexivity.
Qed.

(** ** Distance *)


Lemma ingest_distanceM (s : App) (loc : LocationObject) :
  distanceM (ingest s loc)
  = match subRef s, lastPoint s with
    | Some _, Some last => distanceM s + leg last loc
    | _, _ => distanceM s
    end.
Proof.
  unfold ingest. destruct (subRef s) as [env |].
  - apply callback_distanceM.
  - now destruct (lastPoint s).
Qed.




(** ** The commands *)

Lemma freshSplits_unset : Forall (fun sp => t sp = None) freshSplits.
Proof. unfold freshSplits, SPEED_THRESHOLDS. cbn. repeat constructor. Qed.

(** C6.  After [resetAll], from any state, the component is idle (neither
    running nor armed, no subscription), the time origin is unset, every
    split is unset, the speeds, the distance and the elapsed time are 0, no
    last point is stored, and the filter stores nothing: its next input comes
    back as it went in. *)
Theorem resetAll_clears_everything :
  forall (s : App) (x : R),
    running (resetAll s) = false
    /\ armed (resetAll s) = false
    /\ subRef (resetAll s) = None
    /\ cleared (resetAll s)
    /\ map target (splits (resetAll s)) = SPEED_THRESHOLDS
    /\ EmaFilter.next (ema (resetAll s)) x
       = (EmaFilter.mk (EmaFilter.alpha (ema s)) (Some x), x).
Proof.
  intros s x. unfold cleared.
  repeat match goal with |- _ /\ _ => split end;
    try reflexivity. apply freshSplits_unset.
Qed.

(** C9.  [stop] drops the subscription and sets [running] and [armed] to
    [false]; every other cell keeps its value, so the screen shows the same
    measurements, and no fix reaches the component any more. *)
Theorem stop_keeps_measurements :
  forall (s : App) (loc : LocationObject),
    stop s
    = mkApp (hasPerm s) false false (t0 s) (splits s) (maxKmh s) (avgKmh s)
            (currKmh s) (distanceM s) (elapsedMs s) (fixInfo s) (lastPoint s)
            (ema s) None
    /\ snapshot (stop s) = snapshot s
    /\ ingest (stop s) loc = stop s.
Proof. intros s loc. repeat split. Qed.

(** C10.  With permission, [start] arms and, before that, clears the
    measurements of whatever went before: every split unset, the speeds, the
    distance and the elapsed time at 0, no time origin, no last point,
    nothing stored in the filter. *)
Theorem start_clears_measurements :
  forall s : App,
    hasPerm s = Some true ->
    armed (start s) = true
    /\ running (start s) = true
    /\ cleared (start s)
    /\ snapshot (start s)
       = mkSnapshot 0 0 0 0 0 freshSplits (fixInfo s).
Proof.
  intros s Hperm. unfold start, cleared. rewrite Hperm.
  repeat match goal with |- _ /\ _ => split end;
    try reflexivity. apply freshSplits_unset.
Qed.

(** [start] on a session that measured and was stopped. *)
Lemma start_clears_measurements_stopped :
  hasPerm (after stoppedSession) = Some true
  /\ maxKmh (after stoppedSession) > 0
  /\ (armed (start (after stoppedSession)) = true
      /\ running (start (after stoppedSession)) = true
      /\ cleared (start (after stoppedSession))
      /\ snapshot (start (after stoppedSession))
         = mkSnapshot 0 0 0 0 0 freshSplits (fixInfo (after stoppedSession))).
Proof.
  split; [ reflexivity | ]. split.
  - unfold stoppedSession. run_events. unfold KMH, Rmax.
    repeat destruct (Rle_dec _ _); lra.
  - apply (start_clears_measurements (after stoppedSession)). reflexivity.
Defined.

(** * Further properties of the code *)

(** ** [clamp] and [haversineMeters] *)

(** X1.  [clamp(v, a, b)] is never below [a] and never above the larger of
    [a] and [b]; it leaves a value between [a] and [b] as it is, grows with
    [v], and clamping twice is clamping once.  With the bounds the wrong way
    round ([b <= a]) it is [a] whatever [v] is. *)
Theorem clamp_bounds :
  forall v w a b : R,
    a <= clamp v a b <= Rmax a b
    /\ (a <= v <= b -> clamp v a b = v)
    /\ (v <= w -> clamp v a b <= clamp w a b)
    /\ clamp (clamp v a b) a b = clamp v a b
    /\ (b <= a -> clamp v a b = a).
Proof.
  intros v w a b. unfold clamp, Rmax, Rmin.
  repeat split; try intros ?;
    repeat (match goal with
            | |- context [Rle_dec ?x ?y] =>
                is_var x; is_var y; destruct (Rle_dec x y)
            end; cbv iota);
    lra.
Qed.



Lemma sin_sqr_plus_PI (x : R) : sin (x + PI) ^ 2 = sin x ^ 2.
Proof. rewrite neg_sin. ring. Qed.

(** X3.  The distance depends on the two longitudes only through their
    difference, and a full turn of 360 degrees in one longitude changes
    nothing: a point and the same point 360 degrees further east are at
    distance 0. *)
Theorem haversineMeters_longitude_shift :
  forall lat1 lon1 lat2 lon2 d : R,
    haversineMeters lat1 (lon1 + d) lat2 (lon2 + d)
    = haversineMeters lat1 lon1 lat2 lon2
    /\ haversineMeters lat1 lon1 lat2 (lon2 + 360)
       = haversineMeters lat1 lon1 lat2 lon2
    /\ haversineMeters lat1 lon1 lat1 (lon1 + 360) = 0.
Proof.
  intros lat1 lon1 lat2 lon2 d.
  assert (Hshift : forall p q r u e,
             haversineMeters p (q + e) r (u + e) = haversineMeters p q r u).
  { intros p q r u e. rewrite !haversineMeters_unfold. unfold haversine_a.
    now replace (u + e - (q + e)) with (u - q) by ring. }
  assert (Hturn : forall p q r u,
             haversineMeters p q r (u + 360) = haversineMeters p q r u).
  { intros p q r u. rewrite !haversineMeters_unfold. unfold haversine_a.
    replace (toRad (u + 360 - q) / 2) with (toRad (u - q) / 2 + PI)
      by (unfold toRad; field).
    now rewrite sin_sqr_plus_PI. }
  split; [ apply Hshift | ]. split; [ apply Hturn | ].
  rewrite Hturn. rewrite !haversineMeters_unfold.
  assert (Ha : haversine_a lat1 lon1 lat1 lon1 = 0).
  { unfold haversine_a, toRad.
    replace ((lat1 - lat1) * PI / 180 / 2) with 0 by field.
    replace ((lon1 - lon1) * PI / 180 / 2) with 0 by field.
    rewrite sin_0. ring. }
  rewrite Ha. replace (1 - 0) with 1 by ring. rewrite sqrt_0, sqrt_1.
  destruct Math_atan2_values as [-> _]. ring.
Qed.

Lemma Math_atan2_of_sin (x : R) :
  0 <= x <= PI / 2 ->
  Math_atan2 (sqrt (sin x ^ 2)) (sqrt (1 - sin x ^ 2)) = x.
Proof.
  intros [Hlo Hhi]. pose proof PI_RGT_0 as Hpi.
  assert (Hsin : 0 <= sin x) by (apply sin_ge_0; lra).
  assert (Hcos : 0 <= cos x) by (apply cos_ge_0; lra).
  replace (1 - sin x ^ 2) with (cos x ^ 2)
    by (pose proof (sin2_cos2 x) as H; unfold Rsqr in H; lra).
  rewrite !sqrt_pow2 by assumption.
  destruct (Rle_lt_or_eq_dec x (PI / 2) Hhi) as [Hlt | ->].
  - assert (Hpos : 0 < cos x) by (apply cos_gt_0; lra).
    unfold Math_atan2. destruct (Rlt_dec 0 (cos x)); [ | lra ].
    change (sin x / cos x) with (tan x). apply atan_tan. lra.
  - rewrite sin_PI2, cos_PI2. apply Math_atan2_values.
Qed.

Lemma haversineMeters_of_sin (lat1 lon1 lat2 lon2 x : R) :
  0 <= x <= PI / 2 ->
  haversine_a lat1 lon1 lat2 lon2 = sin x ^ 2 ->
  haversineMeters lat1 lon1 lat2 lon2 = 6371000 * (2 * x).
Proof.
  intros Hx Ha. rewrite haversineMeters_unfold, Ha.
  now rewrite Math_atan2_of_sin.
Qed.

Lemma haversineMeters_north (lat lon d : R) :
  0 <= d <= 180 ->
  haversineMeters lat lon (lat + d) lon = 6371000 * toRad d.
Proof.
  intros Hd. pose proof PI_RGT_0 as Hpi.
  rewrite (haversineMeters_of_sin lat lon (lat + d) lon (toRad d / 2)).
  - field.
  - unfold toRad. split; nra.
  - unfold haversine_a.
    replace (toRad (lon - lon) / 2) with 0 by (unfold toRad; field).
    replace (lat + d - lat) with d by ring.
    rewrite sin_0. ring.
Qed.

Lemma haversineMeters_east (lon d : R) :
  0 <= d <= 180 ->
  haversineMeters 0 lon 0 (lon + d) = 6371000 * toRad d.
Proof.
  intros Hd. pose proof PI_RGT_0 as Hpi.
  rewrite (haversineMeters_of_sin 0 lon 0 (lon + d) (toRad d / 2)).
  - field.
  - unfold toRad. split; nra.
  - unfold haversine_a.
    replace (toRad (0 - 0) / 2) with 0 by (unfold toRad; field).
    replace (toRad 0) with 0 by (unfold toRad; field).
    replace (lon + d - lon) with d by ring.
    rewrite sin_0, cos_0. ring.
Qed.

(** X4.  Along a meridian, and along the equator, the distance is the arc:
    for two points [d] degrees apart, [d] between -180 and 180, it is
    [6371000 * |d| * PI / 180], in either direction. *)
Theorem haversineMeters_arc :
  forall lat lon d : R,
    Rabs d <= 180 ->
    haversineMeters lat lon (lat + d) lon = 6371000 * toRad (Rabs d)
    /\ haversineMeters 0 lon 0 (lon + d) = 6371000 * toRad (Rabs d).
Proof.
  intros lat lon d Hd. unfold Rabs in *.
  destruct (Rcase_abs d) as [Hneg | Hpos].
  - split.
    + rewrite haversineMeters_unfold, haversine_a_sym, <- haversineMeters_unfold.
      replace lat with (lat + d + - d) at 2 by ring.
      apply haversineMeters_north. lra.
    + rewrite haversineMeters_unfold, haversine_a_sym, <- haversineMeters_unfold.
      replace lon with (lon + d + - d) at 2 by ring.
      apply haversineMeters_east. lra.
  - split; [ apply haversineMeters_north | apply haversineMeters_east ]; lra.
Qed.

(** One degree of latitude north of 48 N, and one degree east on the
    equator. *)
Lemma haversineMeters_arc_one_degree :
  Rabs 1 <= 180
  /\ (haversineMeters 48 2 (48 + 1) 2 = 6371000 * toRad (Rabs 1)
      /\ haversineMeters 0 2 0 (2 + 1) = 6371000 * toRad (Rabs 1)).
Proof.
  assert (H : Rabs 1 <= 180) by (rewrite Rabs_pos_eq; lra).
  split; [ exact H | apply (haversineMeters_arc 48 2 1 H) ].
Defined.

(** ** The filter over a series of inputs *)

Lemma nextAll_cons (f : EmaFilter.state) (x : R) (xs : list R) :
  nextAll f (x :: xs) = nextAll (fst (EmaFilter.next f x)) xs.
Proof. reflexivity. Qed.

Lemma nextAll_repeat_seeded (al x : R) (n : nat) :
  forall y0,
    nextAll (EmaFilter.mk al (Some y0)) (repeat x n)
    = EmaFilter.mk al (Some (x + (1 - al) ^ n * (y0 - x))).
Proof.
  induction n as [| n IH]; intros y0; cbn [repeat].
  - unfold nextAll. cbn. f_equal. f_equal. ring.
  - rewrite nextAll_cons. cbn [EmaFilter.next EmaFilter.y EmaFilter.alpha fst].
    rewrite IH. f_equal. f_equal. cbn [pow]. ring.
Qed.

(** X5.  Fed the same input [x] again and again, a filter that stores [y0]
    stores [x + (1 - alpha)^n * (y0 - x)] after [n] calls: the distance to
    [x] shrinks by the factor [1 - alpha] at each call.  An empty filter
    stores [x] from the first call on.  [alpha] never changes. *)
Theorem EmaFilter_constant_input :
  forall (al x y0 : R) (n : nat),
    nextAll (EmaFilter.mk al (Some y0)) (repeat x n)
    = EmaFilter.mk al (Some (x + (1 - al) ^ n * (y0 - x)))
    /\ nextAll (EmaFilter.mk al None) (repeat x (S n))
       = EmaFilter.mk al (Some x).
Proof.
  intros al x y0 n. split; [ apply nextAll_repeat_seeded | ].
  cbn [repeat]. rewrite nextAll_cons.
  cbn [EmaFilter.next EmaFilter.y EmaFilter.alpha fst].
  rewrite nextAll_repeat_seeded. f_equal. f_equal. ring.
Qed.

Lemma EmaFilter_new_alpha_range (a : option R) :
  0.05 <= EmaFilter.alpha (EmaFilter.new a) <= 0.9.
Proof.
  unfold EmaFilter.new. cbn [EmaFilter.alpha].
  destruct (clamp_cases (match a with Some v => v | None => 0.25 end) 0.05 0.9)
    as [H | [H | H]]; lra.
Qed.

(** X6.  With the coefficient of any constructed filter, the value that
    [next] returns lies between the input and the value stored before, and
    is nearer to the input than the stored value was: the distance shrinks
    to at most 0.95 of what it was. *)
Theorem EmaFilter_next_between :
  forall (a : option R) (x y0 : R),
    let f := EmaFilter.mk (EmaFilter.alpha (EmaFilter.new a)) (Some y0) in
    Rmin x y0 <= snd (EmaFilter.next f x) <= Rmax x y0
    /\ Rabs (snd (EmaFilter.next f x) - x) <= 0.95 * Rabs (y0 - x).
Proof.
  intros a x y0 f. subst f. cbn [EmaFilter.next EmaFilter.y EmaFilter.alpha snd].
  pose proof (EmaFilter_new_alpha_range a) as Hal.
  set (al := EmaFilter.alpha (EmaFilter.new a)) in *.
  split.
  - unfold Rmin, Rmax. destruct (Rle_dec x y0); split; nra.
  - replace (al * x + (1 - al) * y0 - x) with ((1 - al) * (y0 - x)) by ring.
    rewrite Rabs_mult, (Rabs_pos_eq (1 - al)) by lra.
    pose proof (Rabs_pos (y0 - x)). nra.
Qed.

(** ** More on the split table *)

(** X7.  A call of the split updater with an origin keeps the length and the
    targets of the table, leaves no entry unset whose target is at or below
    the speed, and makes any further call at the same or a lower speed,
    whatever its time and origin, change nothing. *)
Theorem observe_sets_all_reached :
  forall (prev : list Split) (origin now v origin' now' v' : R),
    map target (observe prev (Some origin) now v) = map target prev
    /\ Forall (fun s => target s <= v -> t s <> None)
              (observe prev (Some origin) now v)
    /\ (v' <= v ->
        observe (observe prev (Some origin) now v) (Some origin') now' v'
        = observe prev (Some origin) now v).
Proof.
  intros prev origin now v origin' now' v'. unfold observe.
  induction prev as [| s prev (IHtargets & IHset & IHagain)]; cbn [map].
  - repeat split; constructor.
  - split; [ | split ].
    + f_equal; [ | exact IHtargets ].
      destruct (t s); [ reflexivity | ].
      now destruct (Rge_dec v (target s)).
    + constructor; [ | exact IHset ].
      destruct (t s) as [e |] eqn:Hset; [ intros _; congruence | ].
      destruct (Rge_dec v (target s)); cbn; [ intros _; discriminate | ].
      lra.
    + intros Hlower. f_equal; [ | now apply IHagain ].
      destruct (t s) as [e |] eqn:Hset; [ now rewrite Hset | ].
      destruct (Rge_dec v (target s)) as [Hge | Hlt]; cbn; [ reflexivity | ].
      rewrite Hset. destruct (Rge_dec v' (target s)); [ lra | reflexivity ].
Qed.

Lemma observe_unreached (tbl : list Split) (origin now v : R) :
  Forall (fun s => t s = None) tbl ->
  Forall (fun s => v < target s) tbl ->
  observe tbl (Some origin) now v = tbl.
Proof.
  unfold observe. induction tbl as [| s tbl IH]; intros Hunset Habove;
    [ reflexivity | ].
  inversion Hunset as [| ? ? Hs Hrest]; subst.
  inversion Habove as [| ? ? Hv Hmore]; subst.
  cbn [map]. rewrite Hs, IH by assumption.
  destruct (Rge_dec v (target s)); [ lra | reflexivity ].
Qed.

Lemma observe_unset_staircase (tbl : list Split) (origin now v : R) :
  forall lo,
    ascending tbl -> Forall (fun s => t s = None) tbl -> lo <= now - origin ->
    staircase lo (observe tbl (Some origin) now v).
Proof.
  induction tbl as [| s tbl IH]; intros lo Hasc Hunset Hlo.
  - apply staircase_unset. constructor.
  - destruct Hasc as [Hhead Hasc].
    inversion Hunset as [| ? ? Hs Hrest]; subst.
    destruct (Rge_dec v (target s)) as [Hge | Hlt].
    + change (observe (s :: tbl) (Some origin) now v)
        with ((match t s with
               | Some _ => s
               | None => if Rge_dec v (target s)
                         then mkSplit (target s) (Some (now - origin)) else s
               end) :: observe tbl (Some origin) now v).
      rewrite Hs. destruct (Rge_dec v (target s)); [ | contradiction ].
      apply staircase_set; [ exact Hlo | ].
      apply IH; [ assumption | assumption | lra ].
    + rewrite observe_unreached.
      * now apply staircase_unset.
      * assumption.
      * constructor; [ lra | ].
        eapply Forall_impl; [ | exact Hhead ]. cbn beta. intros s' Hs'. lra.
Qed.

Lemma observe_staircase (origin now v : R) :
  forall lo tbl,
    staircase lo tbl ->
    ascending tbl -> times_at_most (now - origin) tbl -> lo <= now - origin ->
    staircase lo (observe tbl (Some origin) now v).
Proof.
  intros lo tbl Hst.
  induction Hst as [lo tbl Hunset | lo tg e rest Hle Hrest IH];
    intros Hasc Htimes Hlo.
  - now apply observe_unset_staircase.
  - destruct Hasc as [_ Hasc].
    inversion Htimes as [| ? ? He Hmore]; subst. cbn in He.
    change (observe (mkSplit tg (Some e) :: rest) (Some origin) now v)
      with (mkSplit tg (Some e) :: observe rest (Some origin) now v).
    apply staircase_set; [ exact Hle | ].
    apply IH; assumption.
Qed.

Lemma observe_times_at_most (tbl : list Split) (origin now v hi : R) :
  times_at_most hi tbl -> hi <= now - origin ->
  times_at_most (now - origin) (observe tbl (Some origin) now v).
Proof.
  unfold times_at_most, observe. intros Htimes Hhi.
  induction Htimes as [| s tbl Hs _ IH]; cbn [map]; constructor;
    [ | exact IH ].
  destruct (t s) as [e |] eqn:Hset.
  - rewrite Hset. lra.
  - destruct (Rge_dec v (target s)); cbn; [ lra | now rewrite Hset ].
Qed.

Lemma observe_ascending (tbl : list Split) (origin now v : R) :
  ascending tbl -> ascending (observe tbl (Some origin) now v).
Proof.
  assert (Htarget : forall s,
             target (match t s with
                     | Some _ => s
                     | None => if Rge_dec v (target s)
                               then mkSplit (target s) (Some (now - origin))
                               else s
                     end) = target s).
  { intros s. destruct (t s); [ reflexivity | ].
    now destruct (Rge_dec v (target s)). }
  unfold observe. induction tbl as [| s tbl IH]; intros Hasc; [ exact I | ].
  destruct Hasc as [Hhead Hasc]. cbn [map ascending].
  split; [ | now apply IH ].
  rewrite Forall_map. eapply Forall_impl; [ | exact Hhead ].
  cbn beta. intros s' Hs'. now rewrite !Htarget.
Qed.

Lemma observeAll_staircase (origin : R) (calls : list Observation) :
  forall from lo tbl,
    forward_calls origin from calls ->
    staircase lo tbl -> ascending tbl ->
    times_at_most (from - origin) tbl -> lo <= from - origin ->
    staircase lo (observeAll tbl calls).
Proof.
  induction calls as [| c calls IH];
    intros from lo tbl Hcalls Hst Hasc Htimes Hlo; [ exact Hst | ].
  destruct Hcalls as (Horigin & Hfrom & Hcalls).
  unfold observeAll. cbn [fold_left]. rewrite Horigin.
  apply (IH (obs_now c)).
  - exact Hcalls.
  - apply observe_staircase; try assumption; [ | lra ].
    eapply Forall_impl; [ | exact Htimes ].
    cbn beta. intros s. destruct (t s); [ lra | trivial ].
  - now apply observe_ascending.
  - eapply observe_times_at_most; [ exact Htimes | lra ].
  - lra.
Qed.

Lemma staircase_before_set (l1 : list Split) :
  forall lo s l2 e,
    staircase lo (l1 ++ s :: l2) -> t s = Some e ->
    lo <= e
    /\ Forall (fun s' => exists e', t s' = Some e' /\ lo <= e' <= e) l1.
Proof.
  induction l1 as [| s1 l1 IH]; intros lo s l2 e Hst Hset; cbn [app] in Hst.
  - inversion Hst as [? ? Hunset | ? tg e0 rest Hle Hrest]; subst.
    + inversion Hunset; congruence.
    + cbn in Hset. split; [ congruence | constructor ].
  - inversion Hst as [? ? Hunset | ? tg e0 rest Hle Hrest]; subst.
    + inversion Hunset as [| ? ? _ Hmore]; subst.
      apply Forall_app in Hmore. destruct Hmore as [_ Hmore].
      inversion Hmore; congruence.
    + destruct (IH e0 s l2 e Hrest Hset) as [He0 Hl1].
      split; [ lra | ]. constructor.
      * exists e0. cbn. split; [ reflexivity | lra ].
      * eapply Forall_impl; [ | exact Hl1 ].
        cbn beta. intros s' (e' & Hs' & He'). exists e'. split; [ exact Hs' | lra ].
Qed.

(** X8.  Take a table with strictly increasing targets and every entry
    unset, and call the split updater any number of times with one origin
    and times [now] that never go back, at any speeds.  Then the set entries
    are the first ones of the table and their times do not decrease along
    it: before an entry set at [e] every entry is set, at a time no later
    than [e] and no earlier than the first call's. *)
Theorem observeAll_keeps_order :
  forall (tbl : list Split) (origin from : R) (calls : list Observation),
    ascending tbl ->
    Forall (fun s => t s = None) tbl ->
    forward_calls origin from calls ->
    staircase (from - origin) (observeAll tbl calls)
    /\ forall l1 s l2 e,
         observeAll tbl calls = l1 ++ s :: l2 -> t s = Some e ->
         Forall (fun s' => exists e', t s' = Some e'
                                      /\ from - origin <= e' <= e) l1.
Proof.
  intros tbl origin from calls Hasc Hunset Hcalls.
  assert (Hst : staircase (from - origin) (observeAll tbl calls)).
  { apply (observeAll_staircase origin calls from); try assumption.
    - now apply staircase_unset.
    - eapply Forall_impl; [ | exact Hunset ]. cbn beta.
      intros s Hs. now rewrite Hs.
    - lra. }
  split; [ exact Hst | ].
  intros l1 s l2 e Heq Hset. rewrite Heq in Hst.
  now destruct (staircase_before_set l1 _ s l2 e Hst Hset).
Qed.

Lemma freshSplits_ascending : ascending freshSplits.
Proof.
  unfold freshSplits, SPEED_THRESHOLDS. cbn.
  repeat split; repeat constructor; cbn; lra.
Qed.

(** The component's table, origin 0, calls at 1000, 2000 and 3000 ms with
    45, 30 and 70 km/h. *)
Lemma observeAll_keeps_order_fresh :
  ascending freshSplits
  /\ Forall (fun s => t s = None) freshSplits
  /\ forward_calls 0 0 [mkObservation (Some 0) 1000 45;
                        mkObservation (Some 0) 2000 30;
                        mkObservation (Some 0) 3000 70]
  /\ (staircase (0 - 0)
        (observeAll freshSplits [mkObservation (Some 0) 1000 45;
                                 mkObservation (Some 0) 2000 30;
                                 mkObservation (Some 0) 3000 70])
      /\ forall l1 s l2 e,
           observeAll freshSplits [mkObservation (Some 0) 1000 45;
                                   mkObservation (Some 0) 2000 30;
                                   mkObservation (Some 0) 3000 70]
           = l1 ++ s :: l2 ->
           t s = Some e ->
           Forall (fun s' => exists e', t s' = Some e' /\ 0 - 0 <= e' <= e) l1).
Proof.
  assert (Hcalls : forward_calls 0 0 [mkObservation (Some 0) 1000 45;
                                      mkObservation (Some 0) 2000 30;
                                      mkObservation (Some 0) 3000 70]).
  { cbn. repeat split; lra. }
  split; [ exact freshSplits_ascending | ].
  split; [ exact freshSplits_unset | ].
  split; [ exact Hcalls | ].
  exact (observeAll_keeps_order freshSplits 0 0 _ freshSplits_ascending
           freshSplits_unset Hcalls).
Defined.

(** ** The updaters as functions *)

(** X9.  Given an origin, the average updater returns 0 when [now] is at or
    before it, and otherwise 3600 times the metres read per millisecond
    elapsed, that is kilometres per hour; the result is never negative when
    the distance read is not.  Without an origin it returns the average it
    is given. *)
Theorem avgUpdater_kmh :
  forall origin d now curr : R,
    avgUpdater None d now curr = curr
    /\ avgUpdater (Some origin) d now curr
       = (if Rle_dec now origin then 0 else 3600 * d / (now - origin))
    /\ (0 <= d -> 0 <= avgUpdater (Some origin) d now curr).
Proof.
  intros origin d now curr.
  assert (Hform : avgUpdater (Some origin) d now curr
                  = if Rle_dec now origin then 0
                    else 3600 * d / (now - origin)).
  { unfold avgUpdater.
    destruct (Rle_dec ((now - origin) / 1000) 0);
      destruct (Rle_dec now origin); try lra.
    field. lra. }
  split; [ reflexivity | ]. split; [ exact Hform | ].
  intros Hd. rewrite Hform. destruct (Rle_dec now origin) as [| Hlate]; [ lra | ].
  apply Rmult_le_pos; [ lra | ].
  left. apply Rinv_0_lt_compat. lra.
Qed.

(** X10.  The launch logic calls [setT0], and then with [now], exactly when
    it reads [armed] as true, [t0] as null and a speed of at least
    [MOVING_KMH]; in every other case it does nothing.  The test against
    [STOP_KMH] has no part in the outcome. *)
Theorem launch_only_above_MOVING_KMH :
  forall (a : bool) (origin : option R) (now v : R),
    launch a origin now v
    = match a, origin with
      | true, None => if Rge_dec v MOVING_KMH then Some now else None
      | _, _ => None
      end
    /\ (launch a origin now v = Some now
        <-> a = true /\ origin = None /\ v >= MOVING_KMH)
    /\ (launch a origin now v = None
        <-> ~ (a = true /\ origin = None /\ v >= MOVING_KMH)).
Proof.
  intros a origin now v. unfold launch, STOP_KMH, MOVING_KMH.
  destruct a; destruct origin as [o |];
    try (repeat split; intros; try reflexivity; try discriminate;
         try tauto; intuition congruence).
  destruct (Rle_dec v 1.0); destruct (Rge_dec v 3.0);
    repeat split; intros; try reflexivity; try discriminate; try lra;
    try tauto; try intuition lra.
Qed.

(** ** The component over any sequence of events *)







(** X12.  After any sequence of events the split table is the one of mount:
    the nine thresholds, every time unset.  No split is ever recorded. *)
Theorem splits_never_recorded :
  forall es : list Event,
    splits (after es) = freshSplits
    /\ map target (splits (after es)) = SPEED_THRESHOLDS
    /\ Forall (fun s => t s = None) (splits (after es)).
Proof.
  intros es. destruct (never_launched_after es) as (_ & _ & Hsplits & _).
  rewrite Hsplits. repeat split. apply freshSplits_unset.
Qed.

Lemma handle_keeps_permission s e :
  hasPerm s = Some true -> hasPerm (handle s e) = Some true.
Proof.
  intros Hp. destruct e as [granted | | | loc]; cbn [handle].
  - now rewrite Hp.
  - destruct (buttonsShown s); [ | exact Hp ].
    destruct (running s); [ exact Hp | ].
    unfold start. now rewrite Hp.
  - now destruct (buttonsShown s).
  - unfold ingest. destruct (subRef s) as [env |]; [ | exact Hp ].
    destruct (callback_frame env s loc) as (Hsame & _). now rewrite Hsame.
Qed.

Lemma permission_or_mount (es : list Event) :
  forall s,
    hasPerm s = Some true \/ s = setHasPerm (hasPerm s) mount ->
    hasPerm (fold_left handle es s) = Some true
    \/ fold_left handle es s
       = setHasPerm (hasPerm (fold_left handle es s)) mount.
Proof.
  induction es as [| e es IH]; intros s Hs; [ exact Hs | ].
  cbn [fold_left]. apply IH. destruct Hs as [Hp | Hform].
  - left. now apply handle_keeps_permission.
  - remember (hasPerm s) as p eqn:Hp. subst s.
    destruct e as [granted | | | loc]; cbn [handle].
    + destruct p as [[|] |]; [ now left | now right | now right ].
    + destruct p as [[|] |]; [ now left | now right | now right ].
    + destruct p as [[|] |]; [ now left | now right | now right ].
    + now right.
Qed.

(** X13.  Without permission nothing is measured: while [hasPerm] is not
    [true], whatever buttons were pressed and whatever fixes arrived, every
    cell but [hasPerm] has the value it had at mount. *)
Theorem without_permission_nothing_happens :
  forall es : list Event,
    hasPerm (after es) <> Some true ->
    after es = setHasPerm (hasPerm (after es)) mount.
Proof.
  intros es Hp.
  destruct (permission_or_mount es mount) as [Hyes | Hform].
  - now right.
  - contradiction.
  - exact Hform.
Qed.

(** Permission refused, then both buttons and a fix. *)
Lemma without_permission_refused :
  hasPerm (after [PermissionResult false; PressMain;
                  Fix (fixAt 0 0 (Some 2) 1000); PressReset]) <> Some true
  /\ after [PermissionResult false; PressMain;
            Fix (fixAt 0 0 (Some 2) 1000); PressReset]
     = setHasPerm
         (hasPerm (after [PermissionResult false; PressMain;
                          Fix (fixAt 0 0 (Some 2) 1000); PressReset]))
         mount.
Proof.
  assert (H : hasPerm (after [PermissionResult false; PressMain;
                              Fix (fixAt 0 0 (Some 2) 1000); PressReset])
              <> Some true) by (cbn; discriminate).
  split; [ exact H | exact (without_permission_nothing_happens _ H) ].
Defined.

(** ** The commands together *)


(** ** Speeds over a session *)

Lemma ingestAll_app (s : App) (l1 l2 : list LocationObject) :
  ingestAll s (l1 ++ l2) = ingestAll (ingestAll s l1) l2.
Proof. unfold ingestAll. apply fold_left_app. Qed.

Lemma ingest_maxKmh_grows (s : App) (loc : LocationObject) :
  maxKmh s <= maxKmh (ingest s loc).
Proof.
  unfold ingest. destruct (subRef s) as [env |]; [ | lra ].
  rewrite callback_maxKmh. apply Rmax_l.
Qed.

Lemma ingestAll_maxKmh_grows (locs : list LocationObject) :
  forall s, maxKmh s <= maxKmh (ingestAll s locs).
Proof.
  unfold ingestAll.
  induction locs as [| loc locs IH]; intros s; cbn [fold_left]; [ lra | ].
  eapply Rle_trans; [ apply (ingest_maxKmh_grows s loc) | apply IH ].
Qed.

Lemma ingest_currKmh_below_max (s : App) (loc : LocationObject) :
  currKmh s <= maxKmh s -> currKmh (ingest s loc) <= maxKmh (ingest s loc).
Proof.
  intros Hs. unfold ingest. destruct (subRef s) as [env |]; [ | exact Hs ].
  rewrite callback_currKmh, callback_maxKmh. apply Rmax_r.
Qed.

Lemma ingestAll_currKmh_below_max (locs : list LocationObject) :
  forall s,
    currKmh s <= maxKmh s ->
    currKmh (ingestAll s locs) <= maxKmh (ingestAll s locs).
Proof.
  unfold ingestAll.
  induction locs as [| loc locs IH]; intros s Hs; cbn [fold_left];
    [ exact Hs | ].
  apply IH. now apply ingest_currKmh_below_max.
Qed.

(** X15.  From a state whose shown speed is at most [maxKmh], as after
    [start]: over any series of fixes [maxKmh] never decreases, and at the
    end it is at least the speed that was shown after any earlier part of
    the series. *)
Theorem maxKmh_dominates_session :
  forall (s : App) (seen later : list LocationObject),
    currKmh s <= maxKmh s ->
    maxKmh s <= maxKmh (ingestAll s seen)
    /\ maxKmh (ingestAll s seen) <= maxKmh (ingestAll s (seen ++ later))
    /\ currKmh (ingestAll s seen) <= maxKmh (ingestAll s (seen ++ later)).
Proof.
  intros s seen later Hs. rewrite ingestAll_app.
  split; [ apply ingestAll_maxKmh_grows | ].
  split; [ apply ingestAll_maxKmh_grows | ].
  eapply Rle_trans;
    [ apply (ingestAll_currKmh_below_max seen s Hs)
    | apply ingestAll_maxKmh_grows ].
Qed.

(** A started session: a fix at 10 m/s, then one at 2 m/s. *)
Lemma maxKmh_dominates_started :
  currKmh (after startedSession) <= maxKmh (after startedSession)
  /\ (maxKmh (after startedSession)
      <= maxKmh (ingestAll (after startedSession)
                           [fixAt 0 0 (Some 10) 1000])
      /\ maxKmh (ingestAll (after startedSession) [fixAt 0 0 (Some 10) 1000])
         <= maxKmh (ingestAll (after startedSession)
                              ([fixAt 0 0 (Some 10) 1000]
                               ++ [fixAt 0 0 (Some 2) 2000]))
      /\ currKmh (ingestAll (after startedSession) [fixAt 0 0 (Some 10) 1000])
         <= maxKmh (ingestAll (after startedSession)
                              ([fixAt 0 0 (Some 10) 1000]
                               ++ [fixAt 0 0 (Some 2) 2000]))).
Proof.
  assert (H : currKmh (after startedSession) <= maxKmh (after startedSession))
    by (run_events; lra).
  split; [ exact H | ].
  exact (maxKmh_dominates_session (after startedSession)
           [fixAt 0 0 (Some 10) 1000] [fixAt 0 0 (Some 2) 2000] H).
Defined.

Lemma ingest_steady (s : App) (loc : LocationObject) (x : R) :
  subRef s <> None ->
  EmaFilter.y (ema s) = Some x ->
  KMH (speed (coords loc)) = x ->
  subRef (ingest s loc) <> None
  /\ EmaFilter.y (ema (ingest s loc)) = Some x
  /\ currKmh (ingest s loc) = x.
Proof.
  intros Hsub Hy Hx. unfold ingest.
  destruct (subRef s) as [env |] eqn:Henv; [ | contradiction ].
  destruct (callback_frame env s loc) as (_ & _ & _ & Hsame).
  rewrite Hsame, Henv, callback_ema, callback_currKmh.
  assert (Hsm : smoothed s loc = x).
  { unfold smoothed. cbn [EmaFilter.next snd]. rewrite Hy, Hx. ring. }
  rewrite Hsm. repeat split. discriminate.
Qed.

Lemma ingestAll_steady (locs : list LocationObject) (x : R) :
  forall s,
    subRef s <> None ->
    EmaFilter.y (ema s) = Some x -> currKmh s = x ->
    Forall (fun loc => KMH (speed (coords loc)) = x) locs ->
    currKmh (ingestAll s locs) = x.
Proof.
  unfold ingestAll.
  induction locs as [| loc locs IH]; intros s Hsub Hy Hcurr Hall;
    cbn [fold_left]; [ exact Hcurr | ].
  inversion Hall as [| ? ? Hloc Hrest]; subst.
  destruct (ingest_steady s loc _ Hsub Hy Hloc) as (Hsub' & Hy' & Hcurr').
  now apply IH.
Qed.

(** X16.  In a session started with permission, fixes that all report the
    same speed show exactly that speed in km/h, from the first fix on: the
    first fix seeds the filter, and a filter fed what it stores returns
    it. *)
Theorem steady_speed_is_shown :
  forall (s : App) (mps : option R) (loc : LocationObject)
         (locs : list LocationObject),
    hasPerm s = Some true ->
    steady mps (loc :: locs) ->
    currKmh (ingestAll (start s) (loc :: locs)) = KMH mps.
Proof.
  intros s mps loc locs Hperm Hsteady.
  inversion Hsteady as [| ? ? Hloc Hrest]; subst.
  unfold ingestAll. cbn [fold_left].
  assert (Hfirst : ingest (start s) loc = callback
                     (mkCaptured (armed s) (t0 s) (distanceM s)) (start s) loc).
  { unfold ingest, start. now rewrite Hperm. }
  assert (Hempty : EmaFilter.y (ema (start s)) = None).
  { unfold start. now rewrite Hperm. }
  assert (Hsub : subRef (start s) <> None).
  { unfold start. rewrite Hperm. discriminate. }
  assert (Hsm : smoothed (start s) loc = KMH (speed (coords loc))).
  { unfold smoothed. cbn [EmaFilter.next snd]. now rewrite Hempty. }
  apply (ingestAll_steady locs).
  - rewrite Hfirst. destruct (callback_frame (mkCaptured (armed s) (t0 s) (distanceM s))
                                (start s) loc) as (_ & _ & _ & Hsame).
    now rewrite Hsame.
  - rewrite Hfirst, callback_ema, Hsm. reflexivity.
  - rewrite Hfirst, callback_currKmh, Hsm. reflexivity.
  - eapply Forall_impl; [ | exact Hrest ]. cbn beta.
    intros loc' Hloc'. now rewrite Hloc'.
Qed.

(** Three fixes at 10 m/s after permission and [Start]. *)
Lemma steady_speed_is_shown_three :
  hasPerm (after [PermissionResult true]) = Some true
  /\ steady (Some 10) [fixAt 0 0 (Some 10) 1000; fixAt 0 0.0001 (Some 10) 2000;
                       fixAt 0 0.0002 (Some 10) 3000]
  /\ currKmh (ingestAll (start (after [PermissionResult true]))
                        [fixAt 0 0 (Some 10) 1000;
                         fixAt 0 0.0001 (Some 10) 2000;
                         fixAt 0 0.0002 (Some 10) 3000])
     = KMH (Some 10).
Proof.
  assert (Hperm : hasPerm (after [PermissionResult true]) = Some true)
    by reflexivity.
  assert (Hsteady : steady (Some 10)
                      [fixAt 0 0 (Some 10) 1000; fixAt 0 0.0001 (Some 10) 2000;
                       fixAt 0 0.0002 (Some 10) 3000])
    by (repeat constructor).
  split; [ exact Hperm | ]. split; [ exact Hsteady | ].
  exact (steady_speed_is_shown _ _ _ _ Hperm Hsteady).
Defined.

(** ** Distance over a session *)

Lemma ingestAll_distanceM_path (locs : list LocationObject) :
  forall s,
    subRef s <> None ->
    distanceM (ingestAll s locs)
    = distanceM s
      + pathLength (match lastPoint s with
                    | Some last => last :: map coords locs
                    | None => map coords locs
                    end).
Proof.
  unfold ingestAll.
  induction locs as [| loc locs IH]; intros s Hsub; cbn [fold_left map].
  - destruct (lastPoint s); cbn; lra.
  - assert (Hsub' : subRef (ingest s loc) <> None).
    { unfold ingest. destruct (subRef s) as [env |] eqn:Henv;
        [ | contradiction ].
      destruct (callback_frame env s loc) as (_ & _ & _ & Hsame).
      rewrite Hsame, Henv. discriminate. }
    rewrite (IH _ Hsub'), ingest_distanceM.
    assert (Hlast : lastPoint (ingest s loc) = Some (coords loc)).
    { unfold ingest. destruct (subRef s) as [env |]; [ | contradiction ].
      apply callback_lastPoint. }
    rewrite Hlast.
    destruct (subRef s) as [env |]; [ | contradiction ].
    destruct (lastPoint s) as [last |]; unfold leg.
    + change (pathLength (last :: coords loc :: map coords locs))
        with (haversineMeters (latitude last) (longitude last)
                              (latitude (coords loc)) (longitude (coords loc))
              + pathLength (coords loc :: map coords locs)).
      ring.
    + reflexivity.
Qed.

(** X17.  In a session started with permission, [distanceM] after a series
    of fixes is the length of the path through their positions: the sum of
    the haversine legs between consecutive fixes, 0 for no fix or one. *)
Theorem distanceM_is_path_length :
  forall (s : App) (locs : list LocationObject),
    hasPerm s = Some true ->
    distanceM (ingestAll (start s) locs) = pathLength (map coords locs).
Proof.
  intros s locs Hperm.
  assert (Hsub : subRef (start s) <> None).
  { unfold start. rewrite Hperm. discriminate. }
  rewrite (ingestAll_distanceM_path locs (start s) Hsub).
  unfold start. rewrite Hperm. cbn [distanceM lastPoint setSubRef setT0
    setLastPoint setEma setElapsedMs setDistanceM]. ring.
Qed.

(** Three fixes after permission and [Start]: two legs. *)
Lemma distanceM_is_path_length_three :
  hasPerm (after [PermissionResult true]) = Some true
  /\ distanceM (ingestAll (start (after [PermissionResult true]))
                          [fixAt 0 0 (Some 10) 1000;
                           fixAt 0 0.0001 (Some 10) 2000;
                           fixAt 0 0.0002 (Some 10) 3000])
     = pathLength (map coords [fixAt 0 0 (Some 10) 1000;
                               fixAt 0 0.0001 (Some 10) 2000;
                               fixAt 0 0.0002 (Some 10) 3000]).
Proof.
  assert (Hperm : hasPerm (after [PermissionResult true]) = Some true)
    by reflexivity.
  split; [ exact Hperm | ].
  exact (distanceM_is_path_length _ _ Hperm).
Defined.
